(** * html-to-markdown-rb: the [strings.h] portability shim

    The only source file is
    [crates/html-to-markdown-rb/include/strings.h], sixteen lines of
    conditional preprocessor directives.  The program that is verified here
    is therefore a preprocessor program: its state is the macro environment
    of the translation unit that includes it, and running it means processing
    its directives in order.

    The development has these layers:
    - [Cpp]: the directives of the header and their effect on the macro
      environment, with the redefinition error of [#define];
    - [Link]: what a call written through a name reaches once macros are
      expanded and the name is looked up in the platform's C library;
    - [Libc]: the platform comparison primitives themselves, which are not
      part of the repository, as functions of two strings;
    - [Mem]: the same primitives as loops that read the strings from
      memory. *)

From Stdlib Require Import ZArith Ascii String.
From stdpp Require Import gmap strings list fin_maps.

Local Open Scope string_scope.

(** ** The preprocessor *)

Module Cpp.

(** An object-like macro is a name bound to its replacement list.  Tokens are
    kept as strings; the guard macro has the empty replacement list. *)
Abbreviation macro_env := (gmap string (list string)).

Inductive pp_error :=
| Redefinition (name : string)
| IncludeFailed (header : string).

Inductive result (A : Type) :=
| Ok (a : A)
| Err (e : pp_error).
Arguments Ok {A} a.
Arguments Err {A} e.

Definition bind {A B} (r : result A) (k : A -> result B) : result B :=
  match r with
  | Ok a => k a
  | Err e => Err e
  end.

Notation "r >>= k" := (bind r k) (at level 50, left associativity).

#[warnings="-register-all"]
Inductive directive :=
| Define (name : string) (body : list string)
| Include (header : string)
| Ifdef (name : string) (group : list directive)
| Ifndef (name : string) (group : list directive).

Definition defined (env : macro_env) (name : string) : bool :=
  match env !! name with
  | Some _ => true
  | None => false
  end.

(** [#define name body]: a fresh name is bound; a name that is bound to the
    same replacement list stays as it is; a name bound to another replacement
    list is the redefinition the compiler rejects. *)
Definition define (name : string) (body : list string) (env : macro_env)
  : result macro_env :=
  match env !! name with
  | None => Ok (<[name := body]> env)
  | Some old => if decide (old = body) then Ok env else Err (Redefinition name)
  end.

Section Process.

(** The system headers [<string.h>] and [<ctype.h>] belong to the platform.
    Their effect on the macro environment is a parameter; [None] stands for a
    system header that fails to process. *)
Variable sys : string -> macro_env -> option macro_env.

Definition include (header : string) (env : macro_env) : result macro_env :=
  match sys header env with
  | Some env' => Ok env'
  | None => Err (IncludeFailed header)
  end.

Fixpoint process_directive (d : directive) (env : macro_env) {struct d}
  : result macro_env :=
  let process_group :=
    fix go (ds : list directive) (e : macro_env) {struct ds} : result macro_env :=
      match ds with
      | [] => Ok e
      | d' :: ds' => process_directive d' e >>= go ds'
      end in
  match d with
  | Define n b => define n b env
  | Include h => include h env
  | Ifdef n g => if defined env n then process_group g env else Ok env
  | Ifndef n g => if defined env n then Ok env else process_group g env
  end.

Fixpoint process (ds : list directive) (env : macro_env) : result macro_env :=
  match ds with
  | [] => Ok env
  | d :: ds' => process_directive d env >>= process ds'
  end.

End Process.

(** The header, directive by directive. *)
Definition HTML_TO_MARKDOWN_RB_STRINGS_H : string :=
  "HTML_TO_MARKDOWN_RB_STRINGS_H".

Definition strings_h : list directive :=
  [ Ifndef HTML_TO_MARKDOWN_RB_STRINGS_H
      [ Define HTML_TO_MARKDOWN_RB_STRINGS_H [];
        Include "string.h";
        Ifdef "_WIN32"
          [ Include "ctype.h";
            Ifndef "strcasecmp" [ Define "strcasecmp" ["_stricmp"] ];
            Ifndef "strncasecmp" [ Define "strncasecmp" ["_strnicmp"] ] ] ] ].

(** The two guarded definitions of the Windows branch in closed form, used to
    state what the header computes (lemma [process_strings_h] below): the
    alias of a name is installed unless the name is a macro already. *)
Definition alias (n : string) (b : list string) (env : macro_env) : macro_env :=
  if defined env n then env else <[n := b]> env.

Definition aliases (env : macro_env) : macro_env :=
  alias "strncasecmp" ["_strnicmp"] (alias "strcasecmp" ["_stricmp"] env).

(** What the platform's own headers may be assumed to leave alone: a system
    header keeps a name when it neither defines, undefines nor redefines it. *)
Definition sys_keeps (sys : string -> macro_env -> option macro_env)
    (name : string) : Prop :=
  forall h e e', sys h e = Some e' -> e' !! name = e !! name.

(** Macro replacement of one identifier.  The replacement list is rescanned
    with the macro being replaced disabled, which for object-like macros is
    the environment without it.  Every replacement removes one macro, so
    [size env] steps are enough (lemma [expand_fuel_enough] below). *)
Fixpoint expand_fuel (n : nat) (env : macro_env) (tok : string) : list string :=
  match env !! tok with
  | None => [tok]
  | Some body =>
      match n with
      | O => [tok]
      | S k => flat_map (expand_fuel k (delete tok env)) body
      end
  end.

Definition expand (env : macro_env) (tok : string) : list string :=
  expand_fuel (size env) env tok.

(** The header is itself called [strings.h] and sits in an include directory,
    so a system header with a line [#include <strings.h>] may find this
    header there in place of the system's own file.  Such a system header is
    given by what it does before that line ([pre]) and after it ([post]).
    In [skipping_strings_h] the line contributes nothing; in
    [finding_this_header] the line is resolved to this header, whose own
    includes are served by [inner]. *)
Definition skipping_strings_h
    (pre post : string -> macro_env -> option macro_env)
    (h : string) (e : macro_env) : option macro_env :=
  match pre h e with
  | Some e1 => post h e1
  | None => None
  end.

Definition finding_this_header
    (inner pre post : string -> macro_env -> option macro_env)
    (h : string) (e : macro_env) : option macro_env :=
  match pre h e with
  | Some e1 =>
      match process inner strings_h e1 with
      | Ok e2 => post h e2
      | Err _ => None
      end
  | None => None
  end.

End Cpp.

(** ** Calls through a name *)

Module Link.
Import Cpp.

(** Arguments of the comparison functions: strings and a [size_t] count. *)
Inductive value :=
| VStr (s : string)
| VSize (n : N).

(** A C library function acts on the state of the process and may be
    undefined on its arguments ([None]). *)
Definition cfun (world : Type) : Type := list value -> world -> option (Z * world).

Definition libc (world : Type) : Type := string -> option (cfun world).

(** A call of a library symbol by its own name.  An unknown symbol does not
    link. *)
Definition direct {world} (lib : libc world) (symbol : string)
    (args : list value) (w : world) : option (Z * world) :=
  match lib symbol with
  | Some f => f args w
  | None => None
  end.

(** A call [name(args)] written in a translation unit whose macro environment
    is [env]: the name is macro-replaced, and what it becomes is called. *)
Definition call {world} (lib : libc world) (env : macro_env) (name : string)
    (args : list value) (w : world) : option (Z * world) :=
  match expand env name with
  | [callee] => direct lib callee args w
  | _ => None
  end.

Inductive platform := Windows | Posix.

(** The compiler predefines [_WIN32] on Windows-family targets only. *)
Definition target (env : macro_env) : platform :=
  if defined env "_WIN32" then Windows else Posix.

(** The platform's own name for each of the two comparisons: on a
    Windows-family target the names on the right of the header's two
    [#define] lines, elsewhere the conventional names themselves. *)
Definition native (p : platform) (name : string) : string :=
  match p with
  | Posix => name
  | Windows =>
      if String.eqb name "strcasecmp" then "_stricmp"
      else if String.eqb name "strncasecmp" then "_strnicmp"
      else name
  end.

Definition result_sign {world} (r : option (Z * world)) : option Z :=
  match r with
  | Some (z, _) => Some (Z.sgn z)
  | None => None
  end.

(** A translation unit in which the shim does its work: the header has not
    been seen, and none of the four function names is a macro. *)
Definition fresh_unit (env : macro_env) : Prop :=
  env !! HTML_TO_MARKDOWN_RB_STRINGS_H = None /\
  env !! "strcasecmp" = None /\ env !! "strncasecmp" = None /\
  env !! "_stricmp" = None /\ env !! "_strnicmp" = None.

Definition sys_frame (sys : string -> macro_env -> option macro_env) : Prop :=
  sys_keeps sys "_WIN32" /\
  sys_keeps sys "strcasecmp" /\ sys_keeps sys "strncasecmp" /\
  sys_keeps sys "_stricmp" /\ sys_keeps sys "_strnicmp".

End Link.

(** ** The platform primitives *)

Module Libc.
Import Cpp Link.

Local Open Scope Z_scope.

(** Characters are read as [unsigned char]. *)
Definition code (c : ascii) : Z := Z.of_N (N_of_ascii c).

Definition is_upper (z : Z) : bool := (65 <=? z) && (z <=? 90).
Definition is_lower (z : Z) : bool := (97 <=? z) && (z <=? 122).

(** Case folding of the "C" locale: only the letters A to Z change. *)
Definition tolower (z : Z) : Z := if is_upper z then z + 32 else z.

(** The character under the cursor; past the end of the text there is the
    terminating NUL. *)
Definition peek (s : string) : Z :=
  match s with
  | EmptyString => 0
  | String c _ => code c
  end.

(** Modelled from the spec: the case-insensitive whole-string comparison of
    the platform ([strcasecmp] of POSIX, [_stricmp] of the Windows C runtime),
    a C library function that is not part of the repository.  Section 4.1:
    given two null-terminated character sequences, return an ordering
    indicator (negative, zero, or positive) reflecting case-insensitive
    lexicographic comparison, identical in meaning to the POSIX-style
    functions.  As POSIX words it, both texts are read as if converted to
    lowercase and compared byte by byte up to the first NUL; the indicator is
    the difference of the first two folded bytes that differ. *)
Fixpoint strcasecmp (s t : string) : Z :=
  let f := tolower (peek s) in
  let l := tolower (peek t) in
  match s, t with
  | String _ s', String _ t' =>
      if (f =? l) && negb (f =? 0) then strcasecmp s' t' else f - l
  | _, _ => f - l
  end.

(** Modelled from the spec: the bounded variant ([strncasecmp] of POSIX,
    [_strnicmp] of the Windows C runtime), not part of the repository.
    Section 4.1: as above, with a maximum number of characters to compare. *)
Fixpoint casecmp_upto (n : nat) (s t : string) : Z :=
  match n with
  | O => 0
  | S k =>
      let f := tolower (peek s) in
      let l := tolower (peek t) in
      match s, t with
      | String _ s', String _ t' =>
          if (f =? l) && negb (f =? 0) then casecmp_upto k s' t' else f - l
      | _, _ => f - l
      end
  end.

Definition strncasecmp (s t : string) (n : N) : Z :=
  casecmp_upto (N.to_nat n) s t.

(** The primitives as library functions: they read their arguments and leave
    the process state as it is.  A call with other arguments is undefined. *)
Definition whole_string_primitive {world} : cfun world :=
  fun args w =>
    match args with
    | [VStr s; VStr t] => Some (strcasecmp s t, w)
    | _ => None
    end.

Definition bounded_primitive {world} : cfun world :=
  fun args w =>
    match args with
    | [VStr s; VStr t; VSize n] => Some (strncasecmp s t n, w)
    | _ => None
    end.

(** Modelled from the spec: the symbols each platform's C library provides.
    Section 4.1 names the Windows-family primitives as the native equivalents
    of the conventional names, which elsewhere are assumed available. *)
Definition platform_libc {world} (p : platform) : libc world :=
  fun symbol =>
    match p with
    | Windows =>
        if String.eqb symbol "_stricmp" then Some whole_string_primitive
        else if String.eqb symbol "_strnicmp" then Some bounded_primitive
        else None
    | Posix =>
        if String.eqb symbol "strcasecmp" then Some whole_string_primitive
        else if String.eqb symbol "strncasecmp" then Some bounded_primitive
        else None
    end.

(** *** Letter case and lexicographic order *)

(** Two characters are the same letter when they are equal or are the upper
    and lower case form of one ASCII letter. *)
Definition same_letter (c d : ascii) : bool :=
  (code c =? code d)
  || (is_upper (code c) && (code d =? code c + 32))
  || (is_lower (code c) && (code d =? code c - 32)).

(** Two texts that differ only in letter case. *)
Fixpoint only_case_differs (s t : string) : bool :=
  match s, t with
  | EmptyString, EmptyString => true
  | String c s', String d t' => same_letter c d && only_case_differs s' t'
  | _, _ => false
  end.

(** Two texts that agree, up to letter case, on their first [n] characters. *)
Fixpoint agree_upto (n : nat) (s t : string) : bool :=
  match n with
  | O => true
  | S k =>
      match s, t with
      | EmptyString, EmptyString => true
      | String c s', String d t' => same_letter c d && agree_upto k s' t'
      | _, _ => false
      end
  end.

(** The characters of a null-terminated string, folded to lower case. *)
Fixpoint folded (s : string) : list Z :=
  match s with
  | EmptyString => []
  | String c s' => if code c =? 0 then [] else tolower (code c) :: folded s'
  end.

(** Lexicographic order on character codes. *)
Fixpoint lex_compare (xs ys : list Z) : comparison :=
  match xs, ys with
  | [], [] => Eq
  | [], _ :: _ => Lt
  | _ :: _, [] => Gt
  | x :: xs', y :: ys' =>
      match x ?= y with
      | Eq => lex_compare xs' ys'
      | c => c
      end
  end.

End Libc.

(** ** The primitives at the level of memory *)

Module Mem.
Import Cpp Link Libc.

Local Open Scope Z_scope.

(** The readable bytes of the process, by address. *)
Abbreviation memory := (gmap N ascii).

(** Arguments as they are passed: addresses of characters and counts. *)
Inductive word :=
| Ptr (a : N)
| Size (n : N).

(** Computations that read memory, may change it, and are undefined where
    they touch an address that is not readable. *)
Definition M (A : Type) : Type := memory -> option (A * memory).

Definition unit_m {A} (a : A) : M A := fun m => Some (a, m).

Definition bind_m {A B} (c : M A) (k : A -> M B) : M B :=
  fun m =>
    match c m with
    | Some (a, m') => k a m'
    | None => None
    end.

Definition undefined {A} : M A := fun _ => None.

Definition load (a : N) : M ascii :=
  fun m =>
    match m !! a with
    | Some c => Some (c, m)
    | None => None
    end.

Notation "'let*' x ':=' c 'in' k" := (bind_m c (fun x => k))
  (at level 10, x name, c at level 100, k at level 200, only parsing).

(** Modelled from the spec: the whole-string primitive ([strcasecmp],
    [_stricmp]) as a C library function over memory, not part of the
    repository.  Section 4.1: it is given two null-terminated character
    sequences, has no side effects, and what it does on invalid pointers is
    undefined.  It reads both sequences one character at a time, folds each
    to lower case, and stops at the first difference or at the NUL. *)
Fixpoint stricmp_at (fuel : nat) (p q : N) : M Z :=
  match fuel with
  | O => undefined
  | S k =>
      let* c := load p in
      let* d := load q in
      let f := tolower (code c) in
      let l := tolower (code d) in
      if (f =? l) && negb (f =? 0)
      then stricmp_at k (N.succ p) (N.succ q)
      else unit_m (f - l)
  end.

(** Modelled from the spec: the bounded primitive ([strncasecmp],
    [_strnicmp]) over memory, not part of the repository.  Section 4.1: as
    above, with a maximum number of characters to compare. *)
Fixpoint strnicmp_at (n : nat) (p q : N) : M Z :=
  match n with
  | O => unit_m 0
  | S k =>
      let* c := load p in
      let* d := load q in
      let f := tolower (code c) in
      let l := tolower (code d) in
      if (f =? l) && negb (f =? 0)
      then strnicmp_at k (N.succ p) (N.succ q)
      else unit_m (f - l)
  end.

Definition mfun : Type := list word -> memory -> option (Z * memory).

(** The whole-string primitive never reads more characters than memory
    holds, so [S (size m)] steps are enough (lemma [stricmp_at_cstring]). *)
Definition whole_string_at : mfun :=
  fun args m =>
    match args with
    | [Ptr p; Ptr q] => stricmp_at (S (size m)) p q m
    | _ => None
    end.

Definition bounded_at : mfun :=
  fun args m =>
    match args with
    | [Ptr p; Ptr q; Size n] => strnicmp_at (N.to_nat n) p q m
    | _ => None
    end.

(** Modelled from the spec: the symbols each platform's C library provides,
    as in [Libc.platform_libc]. *)
Definition platform_libc_at (p : platform) : string -> option mfun :=
  fun symbol =>
    match p with
    | Windows =>
        if String.eqb symbol "_stricmp" then Some whole_string_at
        else if String.eqb symbol "_strnicmp" then Some bounded_at
        else None
    | Posix =>
        if String.eqb symbol "strcasecmp" then Some whole_string_at
        else if String.eqb symbol "strncasecmp" then Some bounded_at
        else None
    end.

(** A call [name(args)] on addresses, in a unit whose macro environment is
    [env]: as [Link.call]. *)
Definition call_at (lib : string -> option mfun) (env : macro_env)
    (name : string) (args : list word) (m : memory) : option (Z * memory) :=
  match expand env name with
  | [callee] =>
      match lib callee with
      | Some f => f args m
      | None => None
      end
  | _ => None
  end.

(** Memory [m] holds the null-terminated string [s] at address [p]. *)
Fixpoint cstring (m : memory) (p : N) (s : string) : Prop :=
  match s with
  | EmptyString => m !! p = Some Ascii.zero
  | String c s' =>
      m !! p = Some c /\ code c <> 0 /\ cstring m (N.succ p) s'
  end.

(** Writing a string and its NUL at an address. *)
Fixpoint store_string (p : N) (s : string) (m : memory) : memory :=
  match s with
  | EmptyString => <[p := Ascii.zero]> m
  | String c s' => <[p := c]> (store_string (N.succ p) s' m)
  end.

End Mem.

(** ** Sample translation units *)

Module Demo.
Import Cpp Link Libc.

(** System headers that define nothing but their own include guards. *)
Definition sys_guards (h : string) (e : macro_env) : option macro_env :=
  if String.eqb h "string.h" then Some (<["_INC_STRING" := []]> e)
  else if String.eqb h "ctype.h" then Some (<["_INC_CTYPE" := []]> e)
  else None.

Definition windows_unit : macro_env := {[ "_WIN32" := ["1"] ]}.

Definition posix_unit : macro_env := ∅.

(** A platform that has [<string.h>] and no [<ctype.h>]. *)
Definition sys_no_ctype (h : string) (e : macro_env) : option macro_env :=
  if String.eqb h "string.h" then Some (<["_INC_STRING" := []]> e)
  else None.

(** The rest of a system header after its [#include <strings.h>] line. *)
Definition sys_tail (h : string) (e : macro_env) : option macro_env :=
  Some (<["_TAIL_SEEN" := []]> e).

(** A Windows unit that brings its own whole-string comparison. *)
Definition custom_unit : macro_env :=
  <["strcasecmp" := ["my_casecmp"]]> windows_unit.

(** A Windows unit in which the native whole-string name is itself a macro. *)
Definition wrapped_unit : macro_env :=
  <["_stricmp" := ["traced_stricmp"]]> windows_unit.

(** A Windows unit in which the guard macro is already defined. *)
Definition seen_unit : macro_env :=
  <[HTML_TO_MARKDOWN_RB_STRINGS_H := []]> windows_unit.

(** Two macros that mention each other. *)
Definition looping_unit : macro_env :=
  <["ping" := ["pong"]]> (<["pong" := ["ping"; "stop"]]> ∅).

(** A C library whose comparisons count their calls in the process state:
    primitives with an effect of their own. *)
Definition counting_whole : cfun nat :=
  fun args calls =>
    match args with
    | [VStr s; VStr t] => Some (strcasecmp s t, S calls)
    | _ => None
    end.

Definition counting_bounded : cfun nat :=
  fun args calls =>
    match args with
    | [VStr s; VStr t; VSize n] => Some (strncasecmp s t n, S calls)
    | _ => None
    end.

Definition counting_libc : libc nat :=
  fun symbol =>
    if String.eqb symbol "_stricmp" then Some counting_whole
    else if String.eqb symbol "_strnicmp" then Some counting_bounded
    else None.

(** A memory with two strings in it. *)
Definition two_strings : Mem.memory :=
  Mem.store_string 16 "Table" (Mem.store_string 32 "tablet" ∅).

(** The environment of a unit after the header, or the empty one if the
    header fails. *)
Definition after (env : macro_env) : macro_env :=
  match process sys_guards strings_h env with
  | Ok env' => env'
  | Err _ => ∅
  end.

End Demo.

(** * Properties *)

(** ** The header as a function on macro environments *)

Module CppFacts.
Import Cpp.

Lemma defined_true (env : macro_env) n :
  defined env n = true <-> is_Some (env !! n).
Proof.
  unfold defined. destruct (env !! n) as [b|]; split; intros H.
  - by exists b.
  - done.
  - done.
  - by destruct H.
Qed.

Lemma defined_false (env : macro_env) n :
  defined env n = false <-> env !! n = None.
Proof. unfold defined. destruct (env !! n); split; intros H; done. Qed.

Lemma defined_insert_ne (env : macro_env) n m b :
  n <> m -> defined (<[n := b]> env) m = defined env m.
Proof. intros Hne. unfold defined. by rewrite lookup_insert_ne. Qed.

Lemma defined_insert_eq (env : macro_env) n b :
  defined (<[n := b]> env) n = true.
Proof. unfold defined. by rewrite lookup_insert_eq. Qed.

Lemma define_fresh (env : macro_env) n b :
  defined env n = false -> define n b env = Ok (<[n := b]> env).
Proof. intros H%defined_false. unfold define. by rewrite H. Qed.

Lemma process_app sys ds1 ds2 env :
  process sys (ds1 ++ ds2) env = process sys ds1 env >>= process sys ds2.
Proof.
  revert env. induction ds1 as [|d ds1 IH]; intros env; simpl; [done|].
  destruct (process_directive sys d env); simpl; [apply IH | done].
Qed.

(** The header, run symbolically on any environment and any system headers. *)
Lemma process_strings_h sys env :
  process sys strings_h env =
    if defined env HTML_TO_MARKDOWN_RB_STRINGS_H then Ok env
    else
      include sys "string.h" (<[HTML_TO_MARKDOWN_RB_STRINGS_H := []]> env) >>= fun e1 =>
      if defined e1 "_WIN32"
      then include sys "ctype.h" e1 >>= fun e2 => Ok (aliases e2)
      else Ok e1.
Proof.
  unfold strings_h. simpl.
  destruct (defined env HTML_TO_MARKDOWN_RB_STRINGS_H) eqn:Hg; [done|].
  rewrite (define_fresh _ _ _ Hg). simpl.
  destruct (include sys "string.h" _) as [e1|]; simpl; [|done].
  destruct (defined e1 "_WIN32"); simpl; [|done].
  destruct (include sys "ctype.h" e1) as [e2|]; simpl; [|done].
  unfold aliases, alias.
  destruct (defined e2 "strcasecmp") eqn:H1; simpl.
  - destruct (defined e2 "strncasecmp") eqn:H2; simpl; [done|].
    by rewrite (define_fresh _ _ _ H2).
  - rewrite (define_fresh _ _ _ H1). simpl.
    destruct (defined (<["strcasecmp" := ["_stricmp"]]> e2) "strncasecmp") eqn:H2;
      simpl; [done|].
    by rewrite (define_fresh _ _ _ H2).
Qed.

Lemma include_ok sys h env env' :
  include sys h env = Ok env' <-> sys h env = Some env'.
Proof.
  unfold include. destruct (sys h env); split; intros H;
    try done; by simplify_eq.
Qed.

Lemma alias_lookup_ne n b env m :
  n <> m -> alias n b env !! m = env !! m.
Proof.
  intros Hne. unfold alias. destruct (defined env n); [done|].
  by rewrite lookup_insert_ne.
Qed.

Lemma alias_lookup_eq n b env :
  alias n b env !! n = match env !! n with Some old => Some old | None => Some b end.
Proof.
  unfold alias, defined. destruct (env !! n) eqn:H; [done|].
  by rewrite lookup_insert_eq.
Qed.

(** The header never removes a macro and never changes one that the system
    headers keep. *)
Lemma strings_h_keeps sys env env' n b :
  sys_keeps sys n ->
  process sys strings_h env = Ok env' ->
  env !! n = Some b -> env' !! n = Some b.
Proof.
  intros Hk. rewrite process_strings_h.
  destruct (defined env HTML_TO_MARKDOWN_RB_STRINGS_H) eqn:Hg.
  { intros [= <-]. done. }
  apply defined_false in Hg.
  destruct (include sys "string.h" _) as [e1|] eqn:H1; simpl; [|done].
  apply include_ok in H1. intros Hp Hn.
  assert (He1 : e1 !! n = Some b).
  { rewrite (Hk _ _ _ H1). rewrite lookup_insert_ne; [done|]. congruence. }
  destruct (defined e1 "_WIN32"); [|by simplify_eq].
  destruct (include sys "ctype.h" e1) as [e2|] eqn:H2; simpl in Hp; [|done].
  apply include_ok in H2. injection Hp as <-.
  assert (He2 : e2 !! n = Some b) by (by rewrite (Hk _ _ _ H2)).
  unfold aliases.
  destruct (decide ("strncasecmp" = n)) as [<-|?].
  - rewrite alias_lookup_eq, alias_lookup_ne by done. by rewrite He2.
  - rewrite alias_lookup_ne by done.
    destruct (decide ("strcasecmp" = n)) as [<-|?].
    + rewrite alias_lookup_eq. by rewrite He2.
    + by rewrite alias_lookup_ne.
Qed.

(** Enough fuel: any two fuels of at least [size env] give the same
    expansion, so [expand] never stops early. *)
Lemma expand_fuel_enough n m (env : macro_env) tok :
  size env <= n -> size env <= m ->
  expand_fuel n env tok = expand_fuel m env tok.
Proof.
  revert m env tok. induction n as [|n IH]; intros m env tok Hn Hm.
  - assert (env = ∅) as -> by (apply map_size_empty_iff; lia).
    destruct m; simpl; by rewrite lookup_empty.
  - simpl. destruct (env !! tok) as [body|] eqn:Hl.
    + destruct m as [|m].
      { assert (env = ∅) as -> by (apply map_size_empty_iff; lia).
        by rewrite lookup_empty in Hl. }
      simpl. rewrite Hl.
      assert (Hs : S (size (delete tok env)) = size env).
      { rewrite <- (insert_id env tok body Hl) at 2.
        rewrite <- insert_delete_eq.
        symmetry. apply map_size_insert_None, lookup_delete_eq. }
      clear Hl. induction body as [|t body IHb]; simpl; [done|].
      rewrite IHb. f_equal. apply IH; lia.
    + destruct m; simpl; by rewrite Hl.
Qed.

Lemma expand_plain (env : macro_env) n :
  env !! n = None -> expand env n = [n].
Proof. intros H. unfold expand. destruct (size env); simpl; by rewrite H. Qed.

Lemma expand_alias (env : macro_env) n id :
  env !! n = Some [id] -> env !! id = None -> expand env n = [id].
Proof.
  intros Hn Hid. unfold expand.
  destruct (size env) as [|k] eqn:Hs.
  { apply map_size_empty_iff in Hs. subst. by rewrite lookup_empty in Hn. }
  simpl. rewrite Hn. simpl.
  assert (Hd : delete n env !! id = None).
  { rewrite lookup_delete_ne; [done|]. intros ->. congruence. }
  destruct k; simpl; by rewrite Hd.
Qed.

End CppFacts.

(** ** Claims about the macro environment *)

Module Shim.
Import Cpp CppFacts.

Lemma sys_guards_keeps n :
  n <> "_INC_STRING" -> n <> "_INC_CTYPE" -> sys_keeps Demo.sys_guards n.
Proof.
  intros H1 H2 h e e'. unfold Demo.sys_guards.
  destruct (String.eqb h "string.h").
  { intros [= <-]. by rewrite lookup_insert_ne. }
  destruct (String.eqb h "ctype.h"); [|done].
  intros [= <-]. by rewrite lookup_insert_ne.
Qed.

(** Once the header has been processed, its guard is defined. *)
Lemma strings_h_defines_guard sys env env' :
  sys_keeps sys HTML_TO_MARKDOWN_RB_STRINGS_H ->
  process sys strings_h env = Ok env' ->
  defined env' HTML_TO_MARKDOWN_RB_STRINGS_H = true.
Proof.
  intros Hk. rewrite process_strings_h.
  destruct (defined env HTML_TO_MARKDOWN_RB_STRINGS_H) eqn:Hg.
  { by intros [= <-]. }
  destruct (include sys "string.h" _) as [e1|] eqn:H1; simpl; [|done].
  apply include_ok in H1.
  assert (He1 : e1 !! HTML_TO_MARKDOWN_RB_STRINGS_H = Some []).
  { rewrite (Hk _ _ _ H1). apply lookup_insert_eq. }
  destruct (defined e1 "_WIN32").
  - destruct (include sys "ctype.h" e1) as [e2|] eqn:H2; simpl; [|done].
    apply include_ok in H2. intros [= <-].
    apply defined_true. exists []. unfold aliases.
    rewrite !alias_lookup_ne by done. by rewrite (Hk _ _ _ H2).
  - intros [= <-]. apply defined_true. by exists [].
Qed.

(** The header's own definitions never clash: the only way it fails is a
    system header that fails. *)
Lemma strings_h_no_redefinition sys env n :
  process sys strings_h env <> Err (Redefinition n).
Proof.
  rewrite process_strings_h.
  destruct (defined env HTML_TO_MARKDOWN_RB_STRINGS_H); [done|].
  unfold include.
  destruct (sys "string.h" _) as [e1|]; simpl; [|done].
  destruct (defined e1 "_WIN32"); [|done].
  destruct (sys "ctype.h" e1); simpl; done.
Qed.

(** The header run on the two sample units. *)
Example header_on_windows :
  process Demo.sys_guards strings_h Demo.windows_unit
  = Ok (<["strncasecmp" := ["_strnicmp"]]>
          (<["strcasecmp" := ["_stricmp"]]>
             (<["_INC_CTYPE" := []]>
                (<["_INC_STRING" := []]>
                   (<[HTML_TO_MARKDOWN_RB_STRINGS_H := []]> Demo.windows_unit))))).
Proof. reflexivity. Qed.

Example header_on_posix :
  process Demo.sys_guards strings_h Demo.posix_unit
  = Ok (<["_INC_STRING" := []]>
          (<[HTML_TO_MARKDOWN_RB_STRINGS_H := []]> Demo.posix_unit)).
Proof. reflexivity. Qed.

(** The model does reject a clashing definition: without its [#ifndef], the
    first alias fails in a unit that has a macro of that name. *)
Example unguarded_alias_clashes :
  process Demo.sys_guards [Define "strcasecmp" ["_stricmp"]] Demo.custom_unit
  = Err (Redefinition "strcasecmp").
Proof. reflexivity. Qed.

(** Where [_WIN32] is not defined, the header stops after [<string.h>]. *)
Lemma outside_windows sys env env' :
  sys_keeps sys "_WIN32" ->
  defined env "_WIN32" = false ->
  process sys strings_h env = Ok env' ->
  env' = env \/
  sys "string.h" (<[HTML_TO_MARKDOWN_RB_STRINGS_H := []]> env) = Some env'.
Proof.
  intros Hw Hnw. rewrite process_strings_h.
  destruct (defined env HTML_TO_MARKDOWN_RB_STRINGS_H).
  { intros [= <-]. by left. }
  destruct (include sys "string.h" _) as [e1|] eqn:H1; simpl; [|done].
  apply include_ok in H1.
  assert (Hw1 : defined e1 "_WIN32" = false).
  { apply defined_false. rewrite (Hw _ _ _ H1).
    rewrite lookup_insert_ne by done. by apply defined_false. }
  rewrite Hw1. intros [= <-]. by right.
Qed.

Lemma outside_windows_lookup sys env env' n :
  sys_keeps sys "_WIN32" -> sys_keeps sys n ->
  n <> HTML_TO_MARKDOWN_RB_STRINGS_H ->
  defined env "_WIN32" = false ->
  process sys strings_h env = Ok env' ->
  env' !! n = env !! n.
Proof.
  intros Hw Hk Hne Hnw Hp.
  destruct (outside_windows sys env env' Hw Hnw Hp) as [-> | H1]; [done|].
  rewrite (Hk _ _ _ H1). by rewrite lookup_insert_ne.
Qed.

(** C4. Including the header twice in one translation unit gives the macro
    environment (or the failure) of including it once, and never a
    redefinition error; any later inclusion, once the guard macro
    HTML_TO_MARKDOWN_RB_STRINGS_H is defined, changes nothing.  The system
    headers are assumed not to touch the guard macro. *)
Theorem include_twice_is_include_once sys env :
  sys_keeps sys HTML_TO_MARKDOWN_RB_STRINGS_H ->
  process sys (strings_h ++ strings_h) env = process sys strings_h env /\
  (forall n, process sys (strings_h ++ strings_h) env <> Err (Redefinition n)) /\
  (forall later,
     defined later HTML_TO_MARKDOWN_RB_STRINGS_H = true ->
     process sys strings_h later = Ok later).
Proof.
  intros Hk.
  assert (Heq : process sys (strings_h ++ strings_h) env
                = process sys strings_h env).
  { rewrite process_app.
    destruct (process sys strings_h env) as [env'|err] eqn:Hp;
      cbn [bind]; [|done].
    rewrite process_strings_h.
    by rewrite (strings_h_defines_guard _ _ _ Hk Hp). }
  split; [done|]. split.
  - intros n. rewrite Heq. apply strings_h_no_redefinition.
  - intros later Hl. rewrite process_strings_h. by rewrite Hl.
Qed.

Lemma include_twice_is_include_once_witness :
  sys_keeps Demo.sys_guards HTML_TO_MARKDOWN_RB_STRINGS_H /\
  (process Demo.sys_guards (strings_h ++ strings_h) Demo.windows_unit
   = process Demo.sys_guards strings_h Demo.windows_unit /\
   (forall n, process Demo.sys_guards (strings_h ++ strings_h) Demo.windows_unit
              <> Err (Redefinition n)) /\
   (forall later,
      defined later HTML_TO_MARKDOWN_RB_STRINGS_H = true ->
      process Demo.sys_guards strings_h later = Ok later)).
Proof.
  split.
  - apply sys_guards_keeps; discriminate.
  - apply (include_twice_is_include_once Demo.sys_guards Demo.windows_unit).
    apply sys_guards_keeps; discriminate.
Defined.

(** C5. Where [_WIN32] is not defined, the header defines no alias: after it,
    strcasecmp and strncasecmp are bound exactly as before, and the resulting
    environment is the one left by the guard definition and [<string.h>]
    (or the initial one, if the guard was already defined).  The system
    headers are assumed to keep the three names. *)
Theorem no_alias_outside_windows sys env env' :
  sys_keeps sys "_WIN32" ->
  sys_keeps sys "strcasecmp" ->
  sys_keeps sys "strncasecmp" ->
  defined env "_WIN32" = false ->
  process sys strings_h env = Ok env' ->
  env' !! "strcasecmp" = env !! "strcasecmp" /\
  env' !! "strncasecmp" = env !! "strncasecmp" /\
  (env' = env \/
   sys "string.h" (<[HTML_TO_MARKDOWN_RB_STRINGS_H := []]> env) = Some env').
Proof.
  intros Hw Hc Hn Hnw Hp. split; [|split].
  - by apply (outside_windows_lookup sys env env').
  - by apply (outside_windows_lookup sys env env').
  - by apply (outside_windows sys env env').
Qed.

Lemma no_alias_outside_windows_witness :
  sys_keeps Demo.sys_guards "_WIN32" /\
  sys_keeps Demo.sys_guards "strcasecmp" /\
  sys_keeps Demo.sys_guards "strncasecmp" /\
  defined Demo.posix_unit "_WIN32" = false /\
  process Demo.sys_guards strings_h Demo.posix_unit = Ok (Demo.after Demo.posix_unit) /\
  Demo.after Demo.posix_unit !! "strcasecmp" = Demo.posix_unit !! "strcasecmp" /\
  Demo.after Demo.posix_unit !! "strncasecmp" = Demo.posix_unit !! "strncasecmp" /\
  (Demo.after Demo.posix_unit = Demo.posix_unit \/
   Demo.sys_guards "string.h"
     (<[HTML_TO_MARKDOWN_RB_STRINGS_H := []]> Demo.posix_unit)
   = Some (Demo.after Demo.posix_unit)).
Proof.
  split; [apply sys_guards_keeps; discriminate|].
  split; [apply sys_guards_keeps; discriminate|].
  split; [apply sys_guards_keeps; discriminate|].
  split; [reflexivity|].
  split; [reflexivity|].
  apply (no_alias_outside_windows Demo.sys_guards Demo.posix_unit);
    try (apply sys_guards_keeps; discriminate); reflexivity.
Defined.

(** C9. On every target, Windows included, a macro strcasecmp or strncasecmp
    that exists before the header is included is still bound to the same
    replacement list afterwards: the alias is not installed over it.  The
    system headers are assumed to keep that name. *)
Theorem existing_definition_kept sys env env' name old :
  name = "strcasecmp" \/ name = "strncasecmp" ->
  sys_keeps sys name ->
  env !! name = Some old ->
  process sys strings_h env = Ok env' ->
  env' !! name = Some old.
Proof.
  intros _ Hk Hold Hp. by apply (strings_h_keeps sys env env' name old).
Qed.

Lemma existing_definition_kept_witness :
  ("strcasecmp" = "strcasecmp" \/ "strcasecmp" = "strncasecmp") /\
  sys_keeps Demo.sys_guards "strcasecmp" /\
  Demo.custom_unit !! "strcasecmp" = Some ["my_casecmp"] /\
  process Demo.sys_guards strings_h Demo.custom_unit = Ok (Demo.after Demo.custom_unit) /\
  Demo.after Demo.custom_unit !! "strcasecmp" = Some ["my_casecmp"].
Proof.
  split; [by left|].
  split; [apply sys_guards_keeps; discriminate|].
  split; [reflexivity|].
  split; [reflexivity|].
  apply (existing_definition_kept Demo.sys_guards Demo.custom_unit
           (Demo.after Demo.custom_unit) "strcasecmp" ["my_casecmp"]).
  - by left.
  - apply sys_guards_keeps; discriminate.
  - reflexivity.
  - reflexivity.
Defined.

End Shim.

(** ** Claims about calls through the aliased names *)

Module Alias.
Import Cpp CppFacts Link.

Lemma sys_guards_frame : sys_frame Demo.sys_guards.
Proof. repeat split; apply Shim.sys_guards_keeps; discriminate. Qed.

Lemma windows_unit_fresh : fresh_unit Demo.windows_unit.
Proof. repeat split. Qed.

Lemma posix_unit_fresh : fresh_unit Demo.posix_unit.
Proof. repeat split. Qed.

(** On a Windows-family target both aliases are installed, and what they stand
    for is not itself a macro. *)
Lemma windows_bindings sys env env' :
  sys_frame sys -> fresh_unit env -> target env = Windows ->
  process sys strings_h env = Ok env' ->
  env' !! "strcasecmp" = Some ["_stricmp"] /\
  env' !! "strncasecmp" = Some ["_strnicmp"] /\
  env' !! "_stricmp" = None /\ env' !! "_strnicmp" = None.
Proof.
  intros (Hw & Hc & Hn & Hi & Hni) (Hg & Ec & En & Ei & Eni) Ht.
  rewrite process_strings_h.
  apply defined_false in Hg. rewrite Hg.
  destruct (include sys "string.h" _) as [e1|] eqn:H1; simpl; [|done].
  apply include_ok in H1.
  assert (Hw1 : defined e1 "_WIN32" = true).
  { unfold target in Ht. unfold defined in *. rewrite (Hw _ _ _ H1).
    rewrite lookup_insert_ne by done.
    by destruct (env !! "_WIN32"). }
  rewrite Hw1.
  destruct (include sys "ctype.h" e1) as [e2|] eqn:H2; simpl; [|done].
  apply include_ok in H2. intros [= <-].
  assert (L : forall n, sys_keeps sys n ->
                        n <> HTML_TO_MARKDOWN_RB_STRINGS_H ->
                        e2 !! n = env !! n).
  { intros n Hk Hne. rewrite (Hk _ _ _ H2), (Hk _ _ _ H1).
    by rewrite lookup_insert_ne. }
  unfold aliases. repeat split.
  - rewrite alias_lookup_ne, alias_lookup_eq by done.
    by rewrite (L _ Hc), Ec.
  - rewrite alias_lookup_eq, alias_lookup_ne by done.
    by rewrite (L _ Hn), En.
  - rewrite !alias_lookup_ne by done. by rewrite (L _ Hi).
  - rewrite !alias_lookup_ne by done. by rewrite (L _ Hni).
Qed.

(** Elsewhere the two names stay what they were: plain identifiers. *)
Lemma posix_bindings sys env env' :
  sys_frame sys -> fresh_unit env -> target env = Posix ->
  process sys strings_h env = Ok env' ->
  env' !! "strcasecmp" = None /\ env' !! "strncasecmp" = None.
Proof.
  intros (Hw & Hc & Hn & _) (_ & Ec & En & _) Ht Hp.
  assert (Hnw : defined env "_WIN32" = false).
  { unfold target in Ht. by destruct (defined env "_WIN32"). }
  split.
  - by rewrite (Shim.outside_windows_lookup sys env env' "strcasecmp").
  - by rewrite (Shim.outside_windows_lookup sys env env' "strncasecmp").
Qed.

(** After the header, each of the two names expands to the platform's own
    name for the comparison. *)
Lemma resolution sys env env' name :
  sys_frame sys -> fresh_unit env ->
  process sys strings_h env = Ok env' ->
  name = "strcasecmp" \/ name = "strncasecmp" ->
  expand env' name = [native (target env) name].
Proof.
  intros Hs Hf Hp Hname.
  destruct (target env) eqn:Ht.
  - destruct (windows_bindings sys env env' Hs Hf Ht Hp) as (B1 & B2 & B3 & B4).
    destruct Hname as [-> | ->]; simpl; by apply expand_alias.
  - destruct (posix_bindings sys env env' Hs Hf Ht Hp) as (B1 & B2).
    destruct Hname as [-> | ->]; simpl; by apply expand_plain.
Qed.

(** The call through the conventional name is the call of the native
    primitive: same result, same final state, same undefinedness. *)
Lemma call_is_native {world} (lib : libc world) sys env env' name args w :
  sys_frame sys -> fresh_unit env ->
  process sys strings_h env = Ok env' ->
  name = "strcasecmp" \/ name = "strncasecmp" ->
  call lib env' name args w = direct lib (native (target env) name) args w.
Proof.
  intros Hs Hf Hp Hname. unfold call.
  by rewrite (resolution sys env env' name Hs Hf Hp Hname).
Qed.

(** Outside such units the names go elsewhere: a unit with its own macro
    keeps it, and a unit that has the guard defined gets no alias. *)
Example custom_unit_resolution :
  expand (Demo.after Demo.custom_unit) "strcasecmp" = ["my_casecmp"] /\
  expand (Demo.after Demo.custom_unit) "strncasecmp" = ["_strnicmp"].
Proof. split; reflexivity. Qed.

Example seen_unit_resolution :
  process Demo.sys_guards strings_h Demo.seen_unit = Ok Demo.seen_unit /\
  expand (Demo.after Demo.seen_unit) "strcasecmp" = ["strcasecmp"].
Proof. split; reflexivity. Qed.

(** Rescanning stops at a macro that is being replaced. *)
Example looping_unit_expansion :
  expand Demo.looping_unit "ping" = ["ping"; "stop"].
Proof. reflexivity. Qed.

(** C3. In a unit where the shim does its work, the sign of a comparison made
    through strcasecmp or strncasecmp is the sign of the platform's native
    comparison ([_stricmp] and [_strnicmp] on a Windows-family target) on the
    same inputs, for all strings and counts, so in particular for strings
    that differ beyond letter case. *)
Theorem alias_sign_is_native_sign {world} (lib : libc world)
    sys env env' a b n w :
  sys_frame sys -> fresh_unit env ->
  process sys strings_h env = Ok env' ->
  result_sign (call lib env' "strcasecmp" [VStr a; VStr b] w)
  = result_sign (direct lib (native (target env) "strcasecmp")
                   [VStr a; VStr b] w) /\
  result_sign (call lib env' "strncasecmp" [VStr a; VStr b; VSize n] w)
  = result_sign (direct lib (native (target env) "strncasecmp")
                   [VStr a; VStr b; VSize n] w).
Proof.
  intros Hs Hf Hp. split; f_equal.
  - apply (call_is_native lib sys env env'); auto.
  - apply (call_is_native lib sys env env'); auto.
Qed.

Lemma alias_sign_is_native_sign_witness :
  sys_frame Demo.sys_guards /\ fresh_unit Demo.windows_unit /\
  process Demo.sys_guards strings_h Demo.windows_unit
  = Ok (Demo.after Demo.windows_unit) /\
  result_sign (call Demo.counting_libc (Demo.after Demo.windows_unit)
                 "strcasecmp" [VStr "Table"; VStr "tablet"] 7%nat)
  = result_sign (direct Demo.counting_libc "_stricmp"
                   [VStr "Table"; VStr "tablet"] 7%nat) /\
  result_sign (call Demo.counting_libc (Demo.after Demo.windows_unit)
                 "strncasecmp" [VStr "Table"; VStr "tablet"; VSize 5] 7%nat)
  = result_sign (direct Demo.counting_libc "_strnicmp"
                   [VStr "Table"; VStr "tablet"; VSize 5] 7%nat).
Proof.
  split; [apply sys_guards_frame|].
  split; [apply windows_unit_fresh|].
  split; [reflexivity|].
  apply (alias_sign_is_native_sign Demo.counting_libc Demo.sys_guards
           Demo.windows_unit (Demo.after Demo.windows_unit)).
  - apply sys_guards_frame.
  - apply windows_unit_fresh.
  - reflexivity.
Defined.

(** C7. The alias brings no failure of its own: wherever the native primitive
    is defined, the call through strcasecmp or strncasecmp succeeds with the
    primitive's result and final state, and the call fails only where the
    primitive does. *)
Theorem alias_adds_no_failure {world} (lib : libc world)
    sys env env' name prim args w :
  sys_frame sys -> fresh_unit env ->
  process sys strings_h env = Ok env' ->
  name = "strcasecmp" \/ name = "strncasecmp" ->
  lib (native (target env) name) = Some prim ->
  (forall r, prim args w = Some r -> call lib env' name args w = Some r) /\
  (call lib env' name args w = None -> prim args w = None).
Proof.
  intros Hs Hf Hp Hname Hlib.
  rewrite (call_is_native lib sys env env' name args w Hs Hf Hp Hname).
  unfold direct. rewrite Hlib. auto.
Qed.

Lemma alias_adds_no_failure_witness :
  sys_frame Demo.sys_guards /\ fresh_unit Demo.windows_unit /\
  process Demo.sys_guards strings_h Demo.windows_unit
  = Ok (Demo.after Demo.windows_unit) /\
  ("strncasecmp" = "strcasecmp" \/ "strncasecmp" = "strncasecmp") /\
  Demo.counting_libc (native (target Demo.windows_unit) "strncasecmp")
  = Some Demo.counting_bounded /\
  (forall r,
     Demo.counting_bounded [VStr "Table"; VStr "tablet"; VSize 6] 7%nat = Some r ->
     call Demo.counting_libc (Demo.after Demo.windows_unit) "strncasecmp"
       [VStr "Table"; VStr "tablet"; VSize 6] 7%nat = Some r) /\
  (call Demo.counting_libc (Demo.after Demo.windows_unit) "strncasecmp"
     [VStr "Table"; VStr "tablet"; VSize 6] 7%nat = None ->
   Demo.counting_bounded [VStr "Table"; VStr "tablet"; VSize 6] 7%nat = None).
Proof.
  split; [apply sys_guards_frame|].
  split; [apply windows_unit_fresh|].
  split; [reflexivity|].
  split; [by right|].
  split; [reflexivity|].
  apply (alias_adds_no_failure Demo.counting_libc Demo.sys_guards
           Demo.windows_unit (Demo.after Demo.windows_unit) "strncasecmp").
  - apply sys_guards_frame.
  - apply windows_unit_fresh.
  - reflexivity.
  - by right.
  - reflexivity.
Defined.

End Alias.

(** ** Claims about the comparison itself *)

Module Compare.
Import Cpp CppFacts Link Libc.

Local Open Scope Z_scope.

Ltac to_props :=
  unfold same_letter, tolower, is_upper, is_lower in *;
  repeat match goal with
         | H : _ && _ = true |- _ => apply andb_true_iff in H; destruct H
         | H : _ || _ = true |- _ => apply orb_true_iff in H; destruct H
         | H : (_ =? _) = true |- _ => apply Z.eqb_eq in H
         | H : (_ =? _) = false |- _ => apply Z.eqb_neq in H
         | H : (_ <=? _) = true |- _ => apply Z.leb_le in H
         | H : (_ <=? _) = false |- _ => apply Z.leb_gt in H
         | H : _ && _ = false |- _ => apply andb_false_iff in H; destruct H
         end.

Ltac split_tests :=
  repeat match goal with
         | |- context [?x <=? ?y] => destruct (Z.leb_spec x y); simpl
         | |- context [?x =? ?y] => destruct (Z.eqb_spec x y); simpl
         end.

Lemma code_range c : 0 <= code c < 256.
Proof.
  unfold code. pose proof (N_ascii_bounded c) as H. lia.
Qed.

Lemma tolower_zero z : tolower z = 0 <-> z = 0.
Proof. unfold tolower, is_upper. split_tests; lia. Qed.

Lemma tolower_nonneg z : 0 <= z -> 0 <= tolower z.
Proof. unfold tolower, is_upper. split_tests; lia. Qed.

(** Letters that differ only in case fold to the same character. *)
Lemma same_letter_fold c d :
  same_letter c d = true -> tolower (code c) = tolower (code d).
Proof.
  intros H. to_props; split_tests; lia.
Qed.

Lemma strcasecmp_case_variants s t :
  only_case_differs s t = true -> strcasecmp s t = 0.
Proof.
  revert t. induction s as [|c s IH]; intros [|d t]; simpl; try done.
  intros [Hl Hr]%andb_true_iff. rewrite (same_letter_fold c d Hl).
  rewrite Z.eqb_refl. simpl.
  destruct (tolower (code d) =? 0); simpl; [lia | by apply IH].
Qed.

Lemma casecmp_upto_case_variants n s t :
  only_case_differs s t = true -> casecmp_upto n s t = 0.
Proof.
  revert s t. induction n as [|n IH]; intros [|c s] [|d t]; simpl; try done.
  intros [Hl Hr]%andb_true_iff. rewrite (same_letter_fold c d Hl).
  rewrite Z.eqb_refl. simpl.
  destruct (tolower (code d) =? 0); simpl; [lia | by apply IH].
Qed.

(** The sign of the first difference is the lexicographic order. *)
Lemma head_order f l fs ls :
  f <> l -> (f - l ?= 0) = lex_compare (f :: fs) (l :: ls).
Proof.
  intros Hne. simpl. destruct (Z.compare_spec f l) as [?|?|?]; [lia| |].
  - by apply Z.compare_lt_iff; lia.
  - by apply Z.compare_gt_iff; lia.
Qed.

Lemma casecmp_upto_lexicographic n s t :
  (casecmp_upto n s t ?= 0)
  = lex_compare (take n (folded s)) (take n (folded t)).
Proof.
  revert s t. induction n as [|n IH]; intros s t.
  { by rewrite !take_0. }
  destruct s as [|c s], t as [|d t]; simpl.
  - done.
  - pose proof (code_range d) as Hd.
    pose proof (tolower_zero (code d)) as Hz.
    pose proof (tolower_nonneg (code d)) as Hn.
    destruct (Z.eqb_spec (code d) 0) as [E|E].
    + rewrite E. done.
    + change (tolower 0) with 0. simpl. apply Z.compare_lt_iff. lia.
  - pose proof (code_range c) as Hc.
    pose proof (tolower_zero (code c)) as Hz.
    pose proof (tolower_nonneg (code c)) as Hn.
    destruct (Z.eqb_spec (code c) 0) as [E|E].
    + rewrite E. done.
    + change (tolower 0) with 0. simpl. apply Z.compare_gt_iff. lia.
  - pose proof (code_range c) as Hc. pose proof (code_range d) as Hd.
    pose proof (tolower_zero (code c)) as Hzc.
    pose proof (tolower_zero (code d)) as Hzd.
    pose proof (tolower_nonneg (code c)) as Hnc.
    pose proof (tolower_nonneg (code d)) as Hnd.
    destruct (Z.eqb_spec (tolower (code c)) (tolower (code d))) as [E|E]; simpl.
    + destruct (Z.eqb_spec (tolower (code c)) 0) as [Z0|Z0]; simpl.
      * destruct (Z.eqb_spec (code c) 0); [|lia].
        destruct (Z.eqb_spec (code d) 0); [|lia].
        rewrite E, Z.sub_diag. done.
      * destruct (Z.eqb_spec (code c) 0); [lia|].
        destruct (Z.eqb_spec (code d) 0); [lia|].
        simpl. rewrite E, Z.compare_refl. apply IH.
    + destruct (Z.eqb_spec (code c) 0) as [C0|C0];
        destruct (Z.eqb_spec (code d) 0) as [D0|D0].
      * lia.
      * simpl. apply Z.compare_lt_iff. lia.
      * simpl. apply Z.compare_gt_iff. lia.
      * simpl take. by apply head_order.
Qed.

Lemma folded_length s : (length (folded s) <= String.length s)%nat.
Proof.
  induction s as [|c s IH]; simpl; [lia|].
  destruct (code c =? 0); simpl; lia.
Qed.

(** A count that covers the first string makes the bounded comparison the
    whole-string one. *)
Lemma casecmp_upto_covering n s t :
  (String.length s < n)%nat -> casecmp_upto n s t = strcasecmp s t.
Proof.
  revert s t. induction n as [|n IH]; intros s t Hn; [lia|].
  destruct s as [|c s], t as [|d t]; simpl; try done.
  destruct (_ && _); [|done]. apply IH. simpl in Hn. lia.
Qed.

Lemma strcasecmp_lexicographic s t :
  (strcasecmp s t ?= 0) = lex_compare (folded s) (folded t).
Proof.
  pose proof (folded_length s) as Hs. pose proof (folded_length t) as Ht.
  rewrite <- (casecmp_upto_covering
                (S (Nat.max (String.length s) (String.length t)))) by lia.
  rewrite casecmp_upto_lexicographic.
  by rewrite !take_ge by lia.
Qed.

(** Only the first [n] characters count. *)
Lemma casecmp_upto_prefix n s s' t t' :
  agree_upto n s s' = true -> agree_upto n t t' = true ->
  casecmp_upto n s t = casecmp_upto n s' t'.
Proof.
  revert s s' t t'. induction n as [|n IH]; [done|].
  intros [|c s] [|c' s'] [|d t] [|d' t']; simpl; try done.
  - intros _ [Hd _]%andb_true_iff. by rewrite (same_letter_fold d d' Hd).
  - intros [Hc _]%andb_true_iff _. by rewrite (same_letter_fold c c' Hc).
  - intros [Hc Hs]%andb_true_iff [Hd Ht]%andb_true_iff.
    rewrite (same_letter_fold c c' Hc), (same_letter_fold d d' Hd).
    destruct (_ && _); [by apply IH | done].
Qed.

(** On either platform the library symbol behind each conventional name is
    the modelled primitive. *)
Lemma native_whole {world} p :
  direct (world := world) (platform_libc p) (native p "strcasecmp")
  = whole_string_primitive.
Proof. by destruct p. Qed.

Lemma native_bounded {world} p :
  direct (world := world) (platform_libc p) (native p "strncasecmp")
  = bounded_primitive.
Proof. by destruct p. Qed.

Lemma call_whole {world} sys env env' a b (w : world) :
  sys_frame sys -> fresh_unit env ->
  process sys strings_h env = Ok env' ->
  call (platform_libc (target env)) env' "strcasecmp" [VStr a; VStr b] w
  = Some (strcasecmp a b, w).
Proof.
  intros Hs Hf Hp.
  rewrite (Alias.call_is_native _ sys env env') by auto.
  by rewrite native_whole.
Qed.

Lemma call_bounded {world} sys env env' a b n (w : world) :
  sys_frame sys -> fresh_unit env ->
  process sys strings_h env = Ok env' ->
  call (platform_libc (target env)) env' "strncasecmp"
    [VStr a; VStr b; VSize n] w
  = Some (strncasecmp a b n, w).
Proof.
  intros Hs Hf Hp.
  rewrite (Alias.call_is_native _ sys env env') by auto.
  by rewrite native_bounded.
Qed.

(** C1. In a unit where the shim does its work, on a Windows-family target
    and elsewhere, two strings that differ only in letter case compare equal
    through strcasecmp, and through strncasecmp for every count. *)
Theorem case_variants_compare_equal {world} sys env env' a b (w : world) :
  sys_frame sys -> fresh_unit env ->
  process sys strings_h env = Ok env' ->
  only_case_differs a b = true ->
  call (platform_libc (target env)) env' "strcasecmp" [VStr a; VStr b] w
  = Some (0, w) /\
  forall n,
    call (platform_libc (target env)) env' "strncasecmp"
      [VStr a; VStr b; VSize n] w
    = Some (0, w).
Proof.
  intros Hs Hf Hp Hab. split.
  - rewrite (call_whole sys env env') by done.
    by rewrite strcasecmp_case_variants.
  - intros n. rewrite (call_bounded sys env env') by done.
    unfold strncasecmp. by rewrite casecmp_upto_case_variants.
Qed.

Lemma case_variants_compare_equal_witness :
  sys_frame Demo.sys_guards /\ fresh_unit Demo.windows_unit /\
  process Demo.sys_guards strings_h Demo.windows_unit
  = Ok (Demo.after Demo.windows_unit) /\
  only_case_differs "Content-Type" "content-TYPE" = true /\
  call (platform_libc (target Demo.windows_unit)) (Demo.after Demo.windows_unit)
    "strcasecmp" [VStr "Content-Type"; VStr "content-TYPE"] tt
  = Some (0, tt) /\
  forall n,
    call (platform_libc (target Demo.windows_unit))
      (Demo.after Demo.windows_unit)
      "strncasecmp" [VStr "Content-Type"; VStr "content-TYPE"; VSize n] tt
    = Some (0, tt).
Proof.
  split; [apply Alias.sys_guards_frame|].
  split; [apply Alias.windows_unit_fresh|].
  split; [reflexivity|].
  split; [reflexivity|].
  apply (case_variants_compare_equal Demo.sys_guards Demo.windows_unit
           (Demo.after Demo.windows_unit) "Content-Type" "content-TYPE" tt).
  - apply Alias.sys_guards_frame.
  - apply Alias.windows_unit_fresh.
  - reflexivity.
  - reflexivity.
Defined.

(** C2. In a unit where the shim does its work, a comparison through
    strcasecmp returns an integer whose sign is the lexicographic order of
    the two strings folded to lower case; through strncasecmp, of their
    first [n] folded characters; and each call returns what a POSIX
    platform's function of that name returns. *)
Theorem comparison_is_caseless_lexicographic {world}
    sys env env' a b n (w : world) :
  sys_frame sys -> fresh_unit env ->
  process sys strings_h env = Ok env' ->
  (exists r,
     call (platform_libc (target env)) env' "strcasecmp" [VStr a; VStr b] w
     = Some (r, w) /\
     (r ?= 0) = lex_compare (folded a) (folded b)) /\
  (exists r,
     call (platform_libc (target env)) env' "strncasecmp"
       [VStr a; VStr b; VSize n] w
     = Some (r, w) /\
     (r ?= 0) = lex_compare (take (N.to_nat n) (folded a))
                            (take (N.to_nat n) (folded b))) /\
  (forall name args,
     name = "strcasecmp" \/ name = "strncasecmp" ->
     call (platform_libc (target env)) env' name args w
     = direct (platform_libc Posix) name args w).
Proof.
  intros Hs Hf Hp. repeat split.
  - exists (strcasecmp a b). split.
    + by apply (call_whole sys env env').
    + apply strcasecmp_lexicographic.
  - exists (strncasecmp a b n). split.
    + by apply (call_bounded sys env env').
    + apply casecmp_upto_lexicographic.
  - intros name args Hname.
    rewrite (Alias.call_is_native _ sys env env' name) by done.
    destruct Hname as [-> | ->].
    + by rewrite native_whole.
    + by rewrite native_bounded.
Qed.

Lemma comparison_is_caseless_lexicographic_witness :
  sys_frame Demo.sys_guards /\ fresh_unit Demo.windows_unit /\
  process Demo.sys_guards strings_h Demo.windows_unit
  = Ok (Demo.after Demo.windows_unit) /\
  (exists r,
     call (platform_libc (target Demo.windows_unit))
       (Demo.after Demo.windows_unit)
       "strcasecmp" [VStr "Table"; VStr "tablet"] tt
     = Some (r, tt) /\
     (r ?= 0) = lex_compare (folded "Table") (folded "tablet")) /\
  (exists r,
     call (platform_libc (target Demo.windows_unit))
       (Demo.after Demo.windows_unit)
       "strncasecmp" [VStr "Table"; VStr "tablet"; VSize 3] tt
     = Some (r, tt) /\
     (r ?= 0) = lex_compare (take (N.to_nat 3) (folded "Table"))
                            (take (N.to_nat 3) (folded "tablet"))) /\
  (forall name args,
     name = "strcasecmp" \/ name = "strncasecmp" ->
     call (platform_libc (target Demo.windows_unit))
       (Demo.after Demo.windows_unit) name args tt
     = direct (platform_libc Posix) name args tt).
Proof.
  split; [apply Alias.sys_guards_frame|].
  split; [apply Alias.windows_unit_fresh|].
  split; [reflexivity|].
  apply (comparison_is_caseless_lexicographic Demo.sys_guards
           Demo.windows_unit (Demo.after Demo.windows_unit)
           "Table" "tablet" 3%N tt).
  - apply Alias.sys_guards_frame.
  - apply Alias.windows_unit_fresh.
  - reflexivity.
Defined.

(** C8. In a unit where the shim does its work, strncasecmp with count [n]
    looks at the first [n] characters only: two pairs of strings that agree,
    up to letter case, on their first [n] characters get the same result,
    whatever follows. *)
Theorem bounded_comparison_reads_prefix {world}
    sys env env' a a' b b' n (w : world) :
  sys_frame sys -> fresh_unit env ->
  process sys strings_h env = Ok env' ->
  agree_upto (N.to_nat n) a a' = true ->
  agree_upto (N.to_nat n) b b' = true ->
  call (platform_libc (target env)) env' "strncasecmp"
    [VStr a; VStr b; VSize n] w
  = call (platform_libc (target env)) env' "strncasecmp"
      [VStr a'; VStr b'; VSize n] w.
Proof.
  intros Hs Hf Hp Ha Hb.
  rewrite !(call_bounded sys env env') by done.
  unfold strncasecmp. by rewrite (casecmp_upto_prefix _ a a' b b').
Qed.

Lemma bounded_comparison_reads_prefix_witness :
  sys_frame Demo.sys_guards /\ fresh_unit Demo.windows_unit /\
  process Demo.sys_guards strings_h Demo.windows_unit
  = Ok (Demo.after Demo.windows_unit) /\
  agree_upto (N.to_nat 4) "head" "HEADER" = true /\
  agree_upto (N.to_nat 4) "HEAT of" "heat" = true /\
  call (platform_libc (target Demo.windows_unit)) (Demo.after Demo.windows_unit)
    "strncasecmp" [VStr "head"; VStr "HEAT of"; VSize 4] tt
  = call (platform_libc (target Demo.windows_unit))
      (Demo.after Demo.windows_unit)
      "strncasecmp" [VStr "HEADER"; VStr "heat"; VSize 4] tt.
Proof.
  split; [apply Alias.sys_guards_frame|].
  split; [apply Alias.windows_unit_fresh|].
  split; [reflexivity|].
  split; [reflexivity|].
  split; [reflexivity|].
  apply (bounded_comparison_reads_prefix Demo.sys_guards Demo.windows_unit
           (Demo.after Demo.windows_unit) "head" "HEADER" "HEAT of" "heat"
           4%N tt).
  - apply Alias.sys_guards_frame.
  - apply Alias.windows_unit_fresh.
  - reflexivity.
  - reflexivity.
  - reflexivity.
Defined.

(** C10. In a unit where the shim does its work, strncasecmp with count zero
    returns zero for every two strings. *)
Theorem zero_count_compares_equal {world} sys env env' a b (w : world) :
  sys_frame sys -> fresh_unit env ->
  process sys strings_h env = Ok env' ->
  call (platform_libc (target env)) env' "strncasecmp"
    [VStr a; VStr b; VSize 0] w
  = Some (0, w).
Proof.
  intros Hs Hf Hp. by rewrite (call_bounded sys env env').
Qed.

Lemma zero_count_compares_equal_witness :
  sys_frame Demo.sys_guards /\ fresh_unit Demo.posix_unit /\
  process Demo.sys_guards strings_h Demo.posix_unit
  = Ok (Demo.after Demo.posix_unit) /\
  call (platform_libc (target Demo.posix_unit)) (Demo.after Demo.posix_unit)
    "strncasecmp" [VStr "alpha"; VStr "omega"; VSize 0] tt
  = Some (0, tt).
Proof.
  split; [apply Alias.sys_guards_frame|].
  split; [apply Alias.posix_unit_fresh|].
  split; [reflexivity|].
  apply (zero_count_compares_equal Demo.sys_guards Demo.posix_unit
           (Demo.after Demo.posix_unit) "alpha" "omega" tt).
  - apply Alias.sys_guards_frame.
  - apply Alias.posix_unit_fresh.
  - reflexivity.
Defined.

End Compare.

(** ** Further properties of the header *)

Module Header.
Import Cpp CppFacts Link.

(** A macro the header does not name is bound after it as the system headers
    leave it. *)
Lemma strings_h_frame sys env env' n :
  n <> HTML_TO_MARKDOWN_RB_STRINGS_H ->
  n <> "strcasecmp" -> n <> "strncasecmp" ->
  sys_keeps sys n ->
  process sys strings_h env = Ok env' ->
  env' !! n = env !! n.
Proof.
  intros Hg Hc Hn Hk. rewrite process_strings_h.
  destruct (defined env HTML_TO_MARKDOWN_RB_STRINGS_H).
  { by intros [= <-]. }
  destruct (include sys "string.h" _) as [e1|] eqn:H1; simpl; [|done].
  apply include_ok in H1.
  assert (He1 : e1 !! n = env !! n).
  { rewrite (Hk _ _ _ H1). by rewrite lookup_insert_ne. }
  destruct (defined e1 "_WIN32").
  - destruct (include sys "ctype.h" e1) as [e2|] eqn:H2; simpl; [|done].
    apply include_ok in H2. intros [= <-]. unfold aliases.
    rewrite !alias_lookup_ne by done. by rewrite (Hk _ _ _ H2).
  - by intros [= <-].
Qed.

Lemma sys_tail_keeps n :
  n <> "_TAIL_SEEN" -> sys_keeps Demo.sys_tail n.
Proof.
  intros H1 h e e'. unfold Demo.sys_tail.
  intros [= <-]. by rewrite lookup_insert_ne.
Qed.

Lemma sys_no_ctype_keeps n :
  n <> "_INC_STRING" -> sys_keeps Demo.sys_no_ctype n.
Proof.
  intros H1 h e e'. unfold Demo.sys_no_ctype.
  destruct (String.eqb h "string.h"); [|done].
  intros [= <-]. by rewrite lookup_insert_ne.
Qed.

(** With the guard defined, a system header that finds this header on its
    [#include <strings.h>] line acts as if the line were not there. *)
Lemma finding_guarded inner pre post h e :
  sys_keeps pre HTML_TO_MARKDOWN_RB_STRINGS_H ->
  defined e HTML_TO_MARKDOWN_RB_STRINGS_H = true ->
  include (finding_this_header inner pre post) h e
  = include (skipping_strings_h pre post) h e.
Proof.
  intros Hk Hd. unfold include, finding_this_header, skipping_strings_h.
  destruct (pre h e) as [e1|] eqn:H1; [|done].
  rewrite process_strings_h.
  assert (Hd1 : defined e1 HTML_TO_MARKDOWN_RB_STRINGS_H = true).
  { unfold defined in *. by rewrite (Hk _ _ _ H1). }
  by rewrite Hd1.
Qed.

Lemma skipping_keeps pre post n :
  sys_keeps pre n -> sys_keeps post n ->
  sys_keeps (skipping_strings_h pre post) n.
Proof.
  intros Hpre Hpost h e e'. unfold skipping_strings_h.
  destruct (pre h e) as [e1|] eqn:H1; [|done].
  intros H2. by rewrite (Hpost _ _ _ H2), (Hpre _ _ _ H1).
Qed.

(** X1. The header fails exactly when it is processed for the first time and
    [<string.h>] fails, or [<string.h>] leaves [_WIN32] defined and
    [<ctype.h>] fails; the error names the header that failed. *)
Theorem failure_is_a_system_header sys env err :
  process sys strings_h env = Err err <->
  defined env HTML_TO_MARKDOWN_RB_STRINGS_H = false /\
  ((sys "string.h" (<[HTML_TO_MARKDOWN_RB_STRINGS_H := []]> env) = None /\
    err = IncludeFailed "string.h") \/
   (exists e1,
      sys "string.h" (<[HTML_TO_MARKDOWN_RB_STRINGS_H := []]> env) = Some e1 /\
      defined e1 "_WIN32" = true /\
      sys "ctype.h" e1 = None /\
      err = IncludeFailed "ctype.h")).
Proof.
  rewrite process_strings_h.
  destruct (defined env HTML_TO_MARKDOWN_RB_STRINGS_H).
  { split; [done | by intros [? _]]. }
  unfold include.
  destruct (sys "string.h" _) as [e1|] eqn:H1; simpl.
  - destruct (defined e1 "_WIN32") eqn:Hw.
    + destruct (sys "ctype.h" e1) as [e2|] eqn:H2; simpl.
      * split; [done|]. intros [_ [[? _] | (e & [= <-] & _ & ? & _)]]; congruence.
      * split.
        -- intros [= <-]. split; [done|]. right. by exists e1.
        -- intros [_ [[? _] | (e & _ & _ & _ & ->)]]; done.
    + split; [done|].
      intros [_ [[? _] | (e & [= <-] & ? & _)]]; congruence.
  - split.
    + intros [= <-]. split; [done|]. by left.
    + intros [_ [[_ ->] | (e & ? & _)]]; done.
Qed.

(** X2. Where [_WIN32] is not defined, [<ctype.h>] is not consulted: two
    platforms whose [<string.h>] act alike give the same result, whatever
    their [<ctype.h>] do. *)
Theorem ctype_only_on_windows sys1 sys2 env :
  (forall e, sys1 "string.h" e = sys2 "string.h" e) ->
  sys_keeps sys1 "_WIN32" ->
  defined env "_WIN32" = false ->
  process sys1 strings_h env = process sys2 strings_h env.
Proof.
  intros Hs Hk Hnw. rewrite !process_strings_h.
  destruct (defined env HTML_TO_MARKDOWN_RB_STRINGS_H); [done|].
  unfold include at 1 3. rewrite <- Hs.
  destruct (sys1 "string.h" _) as [e1|] eqn:H1; simpl; [|done].
  assert (Hw1 : defined e1 "_WIN32" = false).
  { apply defined_false. rewrite (Hk _ _ _ H1).
    rewrite lookup_insert_ne by done. by apply defined_false. }
  by rewrite Hw1.
Qed.

Lemma ctype_only_on_windows_witness :
  (forall e, Demo.sys_guards "string.h" e = Demo.sys_no_ctype "string.h" e) /\
  sys_keeps Demo.sys_guards "_WIN32" /\
  defined Demo.posix_unit "_WIN32" = false /\
  process Demo.sys_guards strings_h Demo.posix_unit
  = process Demo.sys_no_ctype strings_h Demo.posix_unit.
Proof.
  split; [reflexivity|].
  split; [apply Shim.sys_guards_keeps; discriminate|].
  split; [reflexivity|].
  apply (ctype_only_on_windows Demo.sys_guards Demo.sys_no_ctype Demo.posix_unit).
  - reflexivity.
  - apply Shim.sys_guards_keeps; discriminate.
  - reflexivity.
Defined.

(** X3. The header binds three names at most: every macro other than the
    guard, strcasecmp and strncasecmp that the system headers keep is bound
    after the header exactly as before, on every target. *)
Theorem other_macros_untouched sys env env' n :
  n <> HTML_TO_MARKDOWN_RB_STRINGS_H ->
  n <> "strcasecmp" -> n <> "strncasecmp" ->
  sys_keeps sys n ->
  process sys strings_h env = Ok env' ->
  env' !! n = env !! n.
Proof.
  intros Hg Hc Hn Hk Hp.
  destruct (env !! n) as [b|] eqn:Hl.
  - by apply (strings_h_keeps sys env env' n b).
  - rewrite <- Hl. by apply (strings_h_frame sys env env' n).
Qed.

Lemma other_macros_untouched_witness :
  "_WIN32" <> HTML_TO_MARKDOWN_RB_STRINGS_H /\
  "_WIN32" <> "strcasecmp" /\ "_WIN32" <> "strncasecmp" /\
  sys_keeps Demo.sys_guards "_WIN32" /\
  process Demo.sys_guards strings_h Demo.windows_unit
  = Ok (Demo.after Demo.windows_unit) /\
  Demo.after Demo.windows_unit !! "_WIN32" = Demo.windows_unit !! "_WIN32".
Proof.
  split; [discriminate|]. split; [discriminate|]. split; [discriminate|].
  split; [apply Shim.sys_guards_keeps; discriminate|].
  split; [reflexivity|].
  apply (other_macros_untouched Demo.sys_guards Demo.windows_unit
           (Demo.after Demo.windows_unit) "_WIN32").
  - discriminate.
  - discriminate.
  - discriminate.
  - apply Shim.sys_guards_keeps; discriminate.
  - reflexivity.
Defined.

(** On first inclusion on a Windows-family target, a name that is free gets
    its alias. *)
Lemma installs_alias sys env env' name :
  name = "strcasecmp" \/ name = "strncasecmp" ->
  sys_keeps sys "_WIN32" -> sys_keeps sys name ->
  env !! HTML_TO_MARKDOWN_RB_STRINGS_H = None ->
  defined env "_WIN32" = true ->
  env !! name = None ->
  process sys strings_h env = Ok env' ->
  env' !! name = Some [native Windows name].
Proof.
  intros Hname Hw Hk Hg%defined_false Hwin Hfree.
  rewrite process_strings_h, Hg.
  destruct (include sys "string.h" _) as [e1|] eqn:H1; simpl; [|done].
  apply include_ok in H1.
  assert (Hw1 : defined e1 "_WIN32" = true).
  { unfold defined in *. rewrite (Hw _ _ _ H1).
    by rewrite lookup_insert_ne. }
  rewrite Hw1.
  destruct (include sys "ctype.h" e1) as [e2|] eqn:H2; simpl; [|done].
  apply include_ok in H2. intros [= <-].
  assert (He2 : e2 !! name = None).
  { rewrite (Hk _ _ _ H2), (Hk _ _ _ H1).
    rewrite lookup_insert_ne; [done|]. by destruct Hname as [-> | ->]. }
  unfold aliases. destruct Hname as [-> | ->]; simpl.
  - rewrite alias_lookup_ne, alias_lookup_eq by done. by rewrite He2.
  - rewrite alias_lookup_eq, alias_lookup_ne by done. by rewrite He2.
Qed.

(** X4. On a Windows-family target the two aliases are installed
    independently: on first inclusion, whichever of strcasecmp and
    strncasecmp is not yet a macro is bound to [_stricmp] or [_strnicmp],
    whether or not the other one is. *)
Theorem aliases_installed_independently sys env env' :
  sys_keeps sys "_WIN32" ->
  sys_keeps sys "strcasecmp" -> sys_keeps sys "strncasecmp" ->
  env !! HTML_TO_MARKDOWN_RB_STRINGS_H = None ->
  defined env "_WIN32" = true ->
  process sys strings_h env = Ok env' ->
  (env !! "strcasecmp" = None -> env' !! "strcasecmp" = Some ["_stricmp"]) /\
  (env !! "strncasecmp" = None -> env' !! "strncasecmp" = Some ["_strnicmp"]).
Proof.
  intros Hw Hc Hn Hg Hwin Hp. split; intros Hfree.
  - apply (installs_alias sys env env' "strcasecmp"); auto.
  - apply (installs_alias sys env env' "strncasecmp"); auto.
Qed.

Lemma aliases_installed_independently_witness :
  sys_keeps Demo.sys_guards "_WIN32" /\
  sys_keeps Demo.sys_guards "strcasecmp" /\
  sys_keeps Demo.sys_guards "strncasecmp" /\
  Demo.custom_unit !! HTML_TO_MARKDOWN_RB_STRINGS_H = None /\
  defined Demo.custom_unit "_WIN32" = true /\
  process Demo.sys_guards strings_h Demo.custom_unit
  = Ok (Demo.after Demo.custom_unit) /\
  (Demo.custom_unit !! "strcasecmp" = None ->
   Demo.after Demo.custom_unit !! "strcasecmp" = Some ["_stricmp"]) /\
  (Demo.custom_unit !! "strncasecmp" = None ->
   Demo.after Demo.custom_unit !! "strncasecmp" = Some ["_strnicmp"]).
Proof.
  split; [apply Shim.sys_guards_keeps; discriminate|].
  split; [apply Shim.sys_guards_keeps; discriminate|].
  split; [apply Shim.sys_guards_keeps; discriminate|].
  split; [reflexivity|]. split; [reflexivity|]. split; [reflexivity|].
  apply (aliases_installed_independently Demo.sys_guards Demo.custom_unit
           (Demo.after Demo.custom_unit)).
  - apply Shim.sys_guards_keeps; discriminate.
  - apply Shim.sys_guards_keeps; discriminate.
  - apply Shim.sys_guards_keeps; discriminate.
  - reflexivity.
  - reflexivity.
  - reflexivity.
Defined.

(** X5. The guard is defined before the system headers are included, so a
    system header whose [#include <strings.h>] line finds this header again
    gets nothing from it and does not recurse: the header gives the result
    it gives when that line contributes nothing.  Both parts of the system
    headers are assumed not to touch the guard macro. *)
Theorem nested_inclusion_is_a_no_op inner pre post env :
  sys_keeps pre HTML_TO_MARKDOWN_RB_STRINGS_H ->
  sys_keeps post HTML_TO_MARKDOWN_RB_STRINGS_H ->
  process (finding_this_header inner pre post) strings_h env
  = process (skipping_strings_h pre post) strings_h env.
Proof.
  intros Hpre Hpost. rewrite !process_strings_h.
  destruct (defined env HTML_TO_MARKDOWN_RB_STRINGS_H); [done|].
  rewrite (finding_guarded inner pre post) by (done || apply defined_insert_eq).
  destruct (include (skipping_strings_h pre post) "string.h" _)
    as [e1|] eqn:H1; simpl; [|done].
  apply include_ok in H1.
  destruct (defined e1 "_WIN32"); [|done].
  rewrite (finding_guarded inner pre post); [done|done|].
  unfold defined.
  rewrite (skipping_keeps pre post _ Hpre Hpost _ _ _ H1).
  by rewrite lookup_insert_eq.
Qed.

Lemma nested_inclusion_is_a_no_op_witness :
  sys_keeps Demo.sys_guards HTML_TO_MARKDOWN_RB_STRINGS_H /\
  sys_keeps Demo.sys_tail HTML_TO_MARKDOWN_RB_STRINGS_H /\
  process (finding_this_header Demo.sys_no_ctype Demo.sys_guards Demo.sys_tail)
    strings_h Demo.windows_unit
  = process (skipping_strings_h Demo.sys_guards Demo.sys_tail)
      strings_h Demo.windows_unit.
Proof.
  split; [apply Shim.sys_guards_keeps; discriminate|].
  split; [apply sys_tail_keeps; discriminate|].
  apply (nested_inclusion_is_a_no_op Demo.sys_no_ctype Demo.sys_guards
           Demo.sys_tail Demo.windows_unit).
  - apply Shim.sys_guards_keeps; discriminate.
  - apply sys_tail_keeps; discriminate.
Defined.

(** X6. A unit's own macro wins at the call site: if strcasecmp or
    strncasecmp is a macro for a plain identifier before the header is
    included, a call through that name after the header still reaches that
    identifier, on every target. *)
Theorem own_macro_wins {world} (lib : libc world)
    sys env env' name f args w :
  name = "strcasecmp" \/ name = "strncasecmp" ->
  env !! name = Some [f] -> env !! f = None ->
  f <> HTML_TO_MARKDOWN_RB_STRINGS_H ->
  f <> "strcasecmp" -> f <> "strncasecmp" ->
  sys_keeps sys name -> sys_keeps sys f ->
  process sys strings_h env = Ok env' ->
  call lib env' name args w = direct lib f args w.
Proof.
  intros _ Hn Hf Hg Hc Hnc Hkn Hkf Hp. unfold call.
  rewrite (expand_alias env' name f); [done| |].
  - by apply (strings_h_keeps sys env env' name [f]).
  - rewrite <- Hf. by apply (strings_h_frame sys env env' f).
Qed.

Lemma own_macro_wins_witness :
  ("strcasecmp" = "strcasecmp" \/ "strcasecmp" = "strncasecmp") /\
  Demo.custom_unit !! "strcasecmp" = Some ["my_casecmp"] /\
  Demo.custom_unit !! "my_casecmp" = None /\
  "my_casecmp" <> HTML_TO_MARKDOWN_RB_STRINGS_H /\
  "my_casecmp" <> "strcasecmp" /\ "my_casecmp" <> "strncasecmp" /\
  sys_keeps Demo.sys_guards "strcasecmp" /\
  sys_keeps Demo.sys_guards "my_casecmp" /\
  process Demo.sys_guards strings_h Demo.custom_unit
  = Ok (Demo.after Demo.custom_unit) /\
  call Demo.counting_libc (Demo.after Demo.custom_unit) "strcasecmp"
    [VStr "a"; VStr "B"] 0%nat
  = direct Demo.counting_libc "my_casecmp" [VStr "a"; VStr "B"] 0%nat.
Proof.
  split; [by left|]. split; [reflexivity|]. split; [reflexivity|].
  split; [discriminate|]. split; [discriminate|]. split; [discriminate|].
  split; [apply Shim.sys_guards_keeps; discriminate|].
  split; [apply Shim.sys_guards_keeps; discriminate|].
  split; [reflexivity|].
  apply (own_macro_wins Demo.counting_libc Demo.sys_guards Demo.custom_unit
           (Demo.after Demo.custom_unit) "strcasecmp" "my_casecmp").
  - by left.
  - reflexivity.
  - reflexivity.
  - discriminate.
  - discriminate.
  - discriminate.
  - apply Shim.sys_guards_keeps; discriminate.
  - apply Shim.sys_guards_keeps; discriminate.
  - reflexivity.
Defined.

Lemma size_lookup_Some (env : macro_env) k v :
  env !! k = Some v -> size env = S (size (delete k env)).
Proof.
  intros Hl. rewrite <- (insert_id env k v Hl) at 1.
  rewrite <- insert_delete_eq.
  apply map_size_insert_None, lookup_delete_eq.
Qed.

(** Two replacements in a row: a macro for a macro for a plain identifier. *)
Lemma expand_chain (env : macro_env) n m g :
  env !! n = Some [m] -> env !! m = Some [g] -> env !! g = None ->
  n <> m -> expand env n = [g].
Proof.
  intros Hn Hm Hg Hne. unfold expand.
  assert (Hm' : delete n env !! m = Some [g]) by by rewrite lookup_delete_ne.
  rewrite (size_lookup_Some env n [m] Hn).
  rewrite (size_lookup_Some (delete n env) m [g] Hm').
  simpl. rewrite Hn. simpl. rewrite Hm'. simpl.
  assert (Hd : delete m (delete n env) !! g = None).
  { rewrite lookup_delete_ne by congruence.
    rewrite lookup_delete_ne by congruence. done. }
  destruct (size _); simpl; by rewrite Hd.
Qed.

(** X7. The alias composes with the unit's own macros: on a Windows-family
    target, if [_stricmp] or [_strnicmp] is itself a macro for a plain
    identifier, a call through the conventional name after the header
    reaches that identifier. *)
Theorem alias_composes_with_native_macro {world} (lib : libc world)
    sys env env' name g args w :
  name = "strcasecmp" \/ name = "strncasecmp" ->
  env !! HTML_TO_MARKDOWN_RB_STRINGS_H = None ->
  defined env "_WIN32" = true ->
  env !! name = None ->
  env !! native Windows name = Some [g] -> env !! g = None ->
  g <> HTML_TO_MARKDOWN_RB_STRINGS_H ->
  g <> "strcasecmp" -> g <> "strncasecmp" ->
  sys_keeps sys "_WIN32" -> sys_keeps sys name ->
  sys_keeps sys (native Windows name) -> sys_keeps sys g ->
  process sys strings_h env = Ok env' ->
  call lib env' name args w = direct lib g args w.
Proof.
  intros Hname Hg Hwin Hfree Hnat Hgf G1 G2 G3 Kw Kn Knat Kg Hp.
  unfold call.
  rewrite (expand_chain env' name (native Windows name) g); [done| | | |].
  - by apply (installs_alias sys env env' name).
  - apply (strings_h_keeps sys env env' _ [g]); auto.
  - rewrite <- Hgf. by apply (strings_h_frame sys env env' g).
  - by destruct Hname as [-> | ->].
Qed.

Lemma alias_composes_with_native_macro_witness :
  ("strcasecmp" = "strcasecmp" \/ "strcasecmp" = "strncasecmp") /\
  Demo.wrapped_unit !! HTML_TO_MARKDOWN_RB_STRINGS_H = None /\
  defined Demo.wrapped_unit "_WIN32" = true /\
  Demo.wrapped_unit !! "strcasecmp" = None /\
  Demo.wrapped_unit !! native Windows "strcasecmp" = Some ["traced_stricmp"] /\
  Demo.wrapped_unit !! "traced_stricmp" = None /\
  "traced_stricmp" <> HTML_TO_MARKDOWN_RB_STRINGS_H /\
  "traced_stricmp" <> "strcasecmp" /\ "traced_stricmp" <> "strncasecmp" /\
  sys_keeps Demo.sys_guards "_WIN32" /\
  sys_keeps Demo.sys_guards "strcasecmp" /\
  sys_keeps Demo.sys_guards (native Windows "strcasecmp") /\
  sys_keeps Demo.sys_guards "traced_stricmp" /\
  process Demo.sys_guards strings_h Demo.wrapped_unit
  = Ok (Demo.after Demo.wrapped_unit) /\
  call Demo.counting_libc (Demo.after Demo.wrapped_unit) "strcasecmp"
    [VStr "a"; VStr "B"] 0%nat
  = direct Demo.counting_libc "traced_stricmp" [VStr "a"; VStr "B"] 0%nat.
Proof.
  split; [by left|]. split; [reflexivity|]. split; [reflexivity|].
  split; [reflexivity|]. split; [reflexivity|]. split; [reflexivity|].
  split; [discriminate|]. split; [discriminate|]. split; [discriminate|].
  split; [apply Shim.sys_guards_keeps; discriminate|].
  split; [apply Shim.sys_guards_keeps; discriminate|].
  split; [apply Shim.sys_guards_keeps; discriminate|].
  split; [apply Shim.sys_guards_keeps; discriminate|].
  split; [reflexivity|].
  apply (alias_composes_with_native_macro Demo.counting_libc Demo.sys_guards
           Demo.wrapped_unit (Demo.after Demo.wrapped_unit)
           "strcasecmp" "traced_stricmp").
  - by left.
  - reflexivity.
  - reflexivity.
  - reflexivity.
  - reflexivity.
  - reflexivity.
  - discriminate.
  - discriminate.
  - discriminate.
  - apply Shim.sys_guards_keeps; discriminate.
  - apply Shim.sys_guards_keeps; discriminate.
  - apply Shim.sys_guards_keeps; discriminate.
  - apply Shim.sys_guards_keeps; discriminate.
  - reflexivity.
Defined.

End Header.

(** ** The comparison has no effect on memory *)

Module Purity.
Import Cpp CppFacts Link Libc Mem.

Local Open Scope Z_scope.

Lemma code_zero : code Ascii.zero = 0.
Proof. reflexivity. Qed.

(** A read leaves memory as it is, so the loops do. *)
Lemma stricmp_at_pure fuel p q m r m' :
  stricmp_at fuel p q m = Some (r, m') -> m' = m.
Proof.
  revert p q. induction fuel as [|fuel IH]; intros p q; simpl; [done|].
  unfold bind_m, load, unit_m.
  destruct (m !! p) as [c|]; [|done].
  destruct (m !! q) as [d|]; [|done].
  destruct (_ && _); [apply IH | by intros [= _ <-]].
Qed.

Lemma strnicmp_at_pure n p q m r m' :
  strnicmp_at n p q m = Some (r, m') -> m' = m.
Proof.
  revert p q. induction n as [|n IH]; intros p q; simpl.
  { unfold unit_m. by intros [= _ <-]. }
  unfold bind_m, load, unit_m.
  destruct (m !! p) as [c|]; [|done].
  destruct (m !! q) as [d|]; [|done].
  destruct (_ && _); [apply IH | by intros [= _ <-]].
Qed.

Lemma whole_string_at_pure args m r m' :
  whole_string_at args m = Some (r, m') -> m' = m.
Proof.
  unfold whole_string_at.
  destruct args as [|[p|?] [|[q|?] [|? ?]]]; try done.
  apply stricmp_at_pure.
Qed.

Lemma bounded_at_pure args m r m' :
  bounded_at args m = Some (r, m') -> m' = m.
Proof.
  unfold bounded_at.
  destruct args as [|[p|?] [|[q|?] [|[?|n] [|? ?]]]]; try done.
  apply strnicmp_at_pure.
Qed.

(** On null-terminated strings the loops compute the comparison of the
    strings they find. *)
Lemma stricmp_at_cstring fuel m p q s t :
  cstring m p s -> cstring m q t ->
  (String.length s < fuel)%nat ->
  stricmp_at fuel p q m = Some (strcasecmp s t, m).
Proof.
  revert p q s t. induction fuel as [|fuel IH]; intros p q s t Hs Ht Hf; [lia|].
  simpl stricmp_at. unfold bind_m, load, unit_m.
  destruct s as [|c s], t as [|d t]; simpl in Hs, Ht.
  - rewrite Hs, Ht. by rewrite code_zero.
  - destruct Ht as (Ht & _ & _). rewrite Hs, Ht, code_zero.
    simpl. change (tolower 0) with 0.
    by rewrite andb_false_r.
  - destruct Hs as (Hs & _ & _). rewrite Hs, Ht, code_zero.
    simpl. change (tolower 0) with 0.
    destruct (tolower (code c) =? 0); done.
  - destruct Hs as (Hs & _ & Hs'), Ht as (Ht & _ & Ht').
    rewrite Hs, Ht. simpl.
    destruct (_ && _); [|done].
    apply IH; [done|done|]. simpl in Hf. lia.
Qed.

Lemma strnicmp_at_cstring n m p q s t :
  cstring m p s -> cstring m q t ->
  strnicmp_at n p q m = Some (casecmp_upto n s t, m).
Proof.
  revert p q s t. induction n as [|n IH]; intros p q s t Hs Ht; [done|].
  simpl strnicmp_at. unfold bind_m, load, unit_m.
  destruct s as [|c s], t as [|d t]; simpl in Hs, Ht.
  - rewrite Hs, Ht. by rewrite code_zero.
  - destruct Ht as (Ht & _ & _). rewrite Hs, Ht, code_zero.
    simpl. change (tolower 0) with 0.
    by rewrite andb_false_r.
  - destruct Hs as (Hs & _ & _). rewrite Hs, Ht, code_zero.
    simpl. change (tolower 0) with 0.
    destruct (tolower (code c) =? 0); done.
  - destruct Hs as (Hs & _ & Hs'), Ht as (Ht & _ & Ht').
    rewrite Hs, Ht. simpl.
    destruct (_ && _); [|done].
    by apply IH.
Qed.

(** A string in memory is shorter than memory is large. *)
Lemma cstring_delete (m : memory) a p s :
  (a < p)%N -> cstring m p s -> cstring (delete a m) p s.
Proof.
  revert p. induction s as [|c s IH]; intros p Hlt; simpl.
  - intros H. rewrite lookup_delete_ne by lia. done.
  - intros (H & Hc & Hs). rewrite lookup_delete_ne by lia.
    repeat split; [done|done|]. apply IH; [lia|done].
Qed.

Lemma cstring_size (m : memory) p s :
  cstring m p s -> (String.length s < size m)%nat.
Proof.
  revert m p. induction s as [|c s IH]; intros m p; simpl.
  - intros H. destruct (size m) eqn:Hz; [|lia].
    apply map_size_empty_iff in Hz. subst. by rewrite lookup_empty in H.
  - intros (H & _ & Hs).
    assert (Hsz : size m = S (size (delete p m))).
    { rewrite <- (insert_id m p c H) at 1. rewrite <- insert_delete_eq.
      apply map_size_insert_None, lookup_delete_eq. }
    rewrite Hsz.
    apply (cstring_delete m p) in Hs; [|lia].
    apply IH in Hs. lia.
Qed.

(** After the header, each conventional name reaches the platform's
    primitive over memory. *)
Lemma call_at_whole sys env env' args m :
  sys_frame sys -> fresh_unit env ->
  process sys strings_h env = Ok env' ->
  call_at (platform_libc_at (target env)) env' "strcasecmp" args m
  = whole_string_at args m.
Proof.
  intros Hs Hf Hp. unfold call_at.
  rewrite (Alias.resolution sys env env' "strcasecmp") by auto.
  by destruct (target env).
Qed.

Lemma call_at_bounded sys env env' args m :
  sys_frame sys -> fresh_unit env ->
  process sys strings_h env = Ok env' ->
  call_at (platform_libc_at (target env)) env' "strncasecmp" args m
  = bounded_at args m.
Proof.
  intros Hs Hf Hp. unfold call_at.
  rewrite (Alias.resolution sys env env' "strncasecmp") by auto.
  by destruct (target env).
Qed.

Lemma two_strings_hold :
  cstring Demo.two_strings 16 "Table" /\ cstring Demo.two_strings 32 "tablet".
Proof. split; simpl; repeat split; done. Qed.

(** C6. In a unit where the shim does its work, on either target, a
    comparison through strcasecmp or strncasecmp that returns leaves memory
    exactly as it found it, so every character sequence in memory, the two
    inputs among them, is still there, and the call returns the same again
    when repeated; on null-terminated strings it does return, and its result
    is a function of the two strings alone, wherever they lie and whatever
    else memory holds. *)
Theorem comparison_is_pure sys env env' :
  sys_frame sys -> fresh_unit env ->
  process sys strings_h env = Ok env' ->
  (forall name args m r m',
     name = "strcasecmp" \/ name = "strncasecmp" ->
     call_at (platform_libc_at (target env)) env' name args m = Some (r, m') ->
     m' = m /\
     (forall a s, cstring m a s -> cstring m' a s) /\
     call_at (platform_libc_at (target env)) env' name args m' = Some (r, m')) /\
  (forall m p q s t,
     cstring m p s -> cstring m q t ->
     call_at (platform_libc_at (target env)) env' "strcasecmp" [Ptr p; Ptr q] m
     = Some (strcasecmp s t, m) /\
     forall n,
       call_at (platform_libc_at (target env)) env' "strncasecmp"
         [Ptr p; Ptr q; Size n] m
       = Some (strncasecmp s t n, m)).
Proof.
  intros Hs Hf Hp. split.
  - intros name args m r m' Hname Hcall.
    assert (Hm : m' = m).
    { destruct Hname as [-> | ->].
      - rewrite (call_at_whole sys env env') in Hcall by done.
        by apply whole_string_at_pure in Hcall.
      - rewrite (call_at_bounded sys env env') in Hcall by done.
        by apply bounded_at_pure in Hcall. }
    subst m'. split; [done|]. split; [done|]. exact Hcall.
  - intros m p q s t Hps Hqt. split.
    + rewrite (call_at_whole sys env env') by done.
      apply stricmp_at_cstring; [done|done|].
      pose proof (cstring_size m p s Hps). lia.
    + intros n. rewrite (call_at_bounded sys env env') by done.
      by apply strnicmp_at_cstring.
Qed.

Lemma comparison_is_pure_witness :
  sys_frame Demo.sys_guards /\ fresh_unit Demo.windows_unit /\
  process Demo.sys_guards strings_h Demo.windows_unit
  = Ok (Demo.after Demo.windows_unit) /\
  (forall name args m r m',
     name = "strcasecmp" \/ name = "strncasecmp" ->
     call_at (platform_libc_at (target Demo.windows_unit))
       (Demo.after Demo.windows_unit) name args m = Some (r, m') ->
     m' = m /\
     (forall a s, cstring m a s -> cstring m' a s) /\
     call_at (platform_libc_at (target Demo.windows_unit))
       (Demo.after Demo.windows_unit) name args m' = Some (r, m')) /\
  (forall m p q s t,
     cstring m p s -> cstring m q t ->
     call_at (platform_libc_at (target Demo.windows_unit))
       (Demo.after Demo.windows_unit) "strcasecmp" [Ptr p; Ptr q] m
     = Some (strcasecmp s t, m) /\
     forall n,
       call_at (platform_libc_at (target Demo.windows_unit))
         (Demo.after Demo.windows_unit) "strncasecmp"
         [Ptr p; Ptr q; Size n] m
       = Some (strncasecmp s t n, m)).
Proof.
  split; [apply Alias.sys_guards_frame|].
  split; [apply Alias.windows_unit_fresh|].
  split; [reflexivity|].
  apply (comparison_is_pure Demo.sys_guards Demo.windows_unit
           (Demo.after Demo.windows_unit)).
  - apply Alias.sys_guards_frame.
  - apply Alias.windows_unit_fresh.
  - reflexivity.
Defined.

(** The call on the sample memory: the result of the strings, memory kept;
    an address that is not readable makes the call undefined. *)
Example call_on_two_strings :
  call_at (platform_libc_at Windows) (Demo.after Demo.windows_unit)
    "strcasecmp" [Ptr 16; Ptr 32] Demo.two_strings
  = Some (-116, Demo.two_strings) /\
  call_at (platform_libc_at Windows) (Demo.after Demo.windows_unit)
    "strncasecmp" [Ptr 16; Ptr 32; Size 5] Demo.two_strings
  = Some (0, Demo.two_strings) /\
  call_at (platform_libc_at Windows) (Demo.after Demo.windows_unit)
    "strcasecmp" [Ptr 16; Ptr 64] Demo.two_strings
  = None.
Proof. repeat split; reflexivity. Qed.

End Purity.
